(** * arviu_scorer: the scoring-workflow engine of [scorer_app.py]

    A shallow embedding of the handlers of [scorer_app.py] and of the part of
    the Python runtime they lean on, followed by the properties of the
    workflow: assignment, recording of measurements, progress and the
    administrator's overview.

    Conventions of the embedding.
    - A Python [float] is an IEEE-754 binary64 value: a [spec_float] computed
      with the operations of [SpecFloat] at precision 53 and exponent bound
      1024.  A Python [int] is a [Z].
    - A Python [str] is a [string]; its bytes are the UTF-8 encoding, whose
      bytewise order is the order of code points that [sorted] uses.
    - An exception is the [Raise] outcome of the [result] monad; a route that
      raises answers with status 500.
    - The file system below [scorer_data/] is a finite map from the name of a
      scorer's directory to that directory, which holds [scores.csv] or not.
      A scorer's identity is the name of the directory, one path component.
      Entries that are not directories are passed over by the routes that
      list the directory and are not part of the map.
    - A csv file is the list of rows that [csv.writer] put there and that
      [csv.reader] hands back; the text encoding of a row (quoting, line
      ends) belongs to the [csv] module and is left abstract.  What is
      modelled of the text layer is what the program chooses: the log is
      written with [newline=""] and read back without it, so a carriage
      return inside a cell comes back as a line feed
      ([universal_newlines]).
    - The body of a request is a JSON object whose [measurements], when
      present, is a list; the values of a measurement are JSON scalars.
      The clock is a parameter of the routes that read it. *)

From Stdlib Require Import ZArith Lia String Ascii List.
From Corelib Require Import SpecFloat.
From stdpp Require Import base option list gmap strings sorting pretty.

Open Scope string_scope.
Open Scope Z_scope.

(** ** Exceptions and the error monad *)

Inductive exn :=
  | TypeError
  | KeyError (key : string)
  | OverflowError
  | ZeroDivisionError
  | ValueError
  | ComplexResult.

Inductive result (A : Type) :=
  | Return (a : A)
  | Raise (e : exn).
Arguments Return {A} a.
Arguments Raise {A} e.

#[global] Instance result_ret : MRet result := λ A, @Return A.
#[global] Instance result_bind : MBind result := λ A B f m,
  match m with
  | Return a => f a
  | Raise e => Raise e
  end.
#[global] Instance result_fmap : FMap result := λ A B f m,
  match m with
  | Return a => Return (f a)
  | Raise e => Raise e
  end.

(** ** Python numbers *)

Module Py.

Abbreviation float := spec_float.

Definition prec : Z := 53.
Definition emax : Z := 1024.

Definition fadd : float → float → float := SFadd prec emax.
Definition fsub : float → float → float := SFsub prec emax.
Definition fmul : float → float → float := SFmul prec emax.
Definition fdiv : float → float → float := SFdiv prec emax.

(** The exact integer [z] as an unrounded mantissa with exponent 0. *)
Definition Z2SF (z : Z) : float :=
  match z with
  | Z0 => S754_zero false
  | Zpos p => S754_finite false p 0
  | Zneg p => S754_finite true p 0
  end.

(** The binary64 value nearest to the integer [z] (ties to even). *)
Definition nearest (z : Z) : float := binary_normalize prec emax z 0 false.

(** A decimal literal [n / 10^k] of the source text, read as Python reads
    it: the binary64 value nearest to the decimal. *)
Definition literal (n : Z) (k : Z) : float := fdiv (Z2SF n) (Z2SF (10 ^ k)).

Definition pos_zero : float := S754_zero false.
Definition one : float := Eval vm_compute in nearest 1.
Definition two : float := Eval vm_compute in nearest 2.
Definition half : float := Eval vm_compute in literal 5 1.
Definition hundred : float := Eval vm_compute in nearest 100.

Definition is_nan (f : float) : bool :=
  match f with S754_nan => true | _ => false end.
Definition is_inf (f : float) : bool :=
  match f with S754_infinity _ => true | _ => false end.

(** [x == floor(x)] for a finite [x]. *)
Definition is_integer (f : float) : bool :=
  match f with
  | S754_zero _ => true
  | S754_finite _ m e =>
      if 0 <=? e then true else (Zpos m) mod 2 ^ (- e) =? 0
  | _ => false
  end.

(** CPython's [DOUBLE_IS_ODD_INTEGER(x)]: [fmod(fabs(x), 2.0) == 1.0]. *)
Definition is_odd_integer (f : float) : bool :=
  match f with
  | S754_finite _ m e =>
      if 0 <? e then false
      else ((Zpos m) mod 2 ^ (- e) =? 0) && Z.odd (Zpos m / 2 ^ (- e))
  | _ => false
  end.

(** The two kinds of number a JSON document yields. *)
Inductive num :=
  | NInt (z : Z)
  | NFloat (f : float).

(** A JSON scalar as Python holds it. *)
Inductive pyval :=
  | VNone
  | VBool (b : bool)
  | VInt (z : Z)
  | VFloat (f : float)
  | VStr (s : string).

(** The operand of an arithmetic operator: [bool] is a subtype of [int];
    anything else that is not a number raises [TypeError]. *)
Definition as_num (v : pyval) : result num :=
  match v with
  | VBool b => Return (NInt (Z.b2z b))
  | VInt z => Return (NInt z)
  | VFloat f => Return (NFloat f)
  | VNone | VStr _ => Raise TypeError
  end.

(** [float(z)] for an [int]: nearest binary64 value, [OverflowError] when
    the integer is too large for a float. *)
Definition float_of_int (z : Z) : result float :=
  match nearest z with
  | S754_infinity _ => Raise OverflowError
  | f => Return f
  end.

Definition to_float (n : num) : result float :=
  match n with
  | NInt z => float_of_int z
  | NFloat f => Return f
  end.

(** [a - b] and [a + b]: exact on two ints, otherwise both operands are
    converted to float. *)
Definition sub (a b : num) : result num :=
  match a, b with
  | NInt x, NInt y => Return (NInt (x - y))
  | _, _ => x ← to_float a; y ← to_float b; Return (NFloat (fsub x y))
  end.

Definition add (a b : num) : result num :=
  match a, b with
  | NInt x, NInt y => Return (NInt (x + y))
  | _, _ => x ← to_float a; y ← to_float b; Return (NFloat (fadd x y))
  end.

Definition mul (a b : num) : result num :=
  match a, b with
  | NInt x, NInt y => Return (NInt (x * y))
  | _, _ => x ← to_float a; y ← to_float b; Return (NFloat (fmul x y))
  end.

(** [a / b] on two ints: the correctly rounded quotient of the exact
    integers. *)
Definition int_true_divide (a b : Z) : result float :=
  if b =? 0 then Raise ZeroDivisionError
  else match fdiv (Z2SF a) (Z2SF b) with
       | S754_infinity _ => Raise OverflowError
       | f => Return f
       end.

(** [round(x)] with one argument: the nearest integer, ties to even. *)
Definition round_half_even (n d : Z) : Z :=
  let q := n / d in
  let r := n mod d in
  match 2 * r ?= d with
  | Lt => q
  | Gt => q + 1
  | Eq => if Z.even q then q else q + 1
  end.

Definition round (f : float) : result Z :=
  match f with
  | S754_nan => Raise ValueError
  | S754_infinity _ => Raise OverflowError
  | S754_zero _ => Return 0
  | S754_finite s m e =>
      let a := if 0 <=? e then Zpos m * 2 ^ e
               else round_half_even (Zpos m) (2 ^ (- e)) in
      Return (if s then - a else a)
  end.

(** [f"{x:.2f}"]: the decimal with two digits after the point that is
    nearest to the exact value of [x] (ties to even); the sign of a
    negative value is kept even when the digits are all zero. *)
Definition two_decimals (a : Z) : string :=
  let frac := a mod 100 in
  pretty (a / 100) +:+ "." +:+ pretty (frac / 10) +:+ pretty (frac mod 10).

Definition format_2f (f : float) : string :=
  match f with
  | S754_nan => "nan"
  | S754_infinity s => if s then "-inf" else "inf"
  | S754_zero s => (if s then "-" else "") +:+ two_decimals 0
  | S754_finite s m e =>
      let a := if 0 <=? e then Zpos m * 2 ^ e * 100
               else round_half_even (Zpos m * 100) (2 ^ (- e)) in
      (if s then "-" else "") +:+ two_decimals a
  end.

End Py.

(** ** The runtime's services that stay abstract

  [libm_pow] is the C library's [pow] on two finite doubles: CPython hands
  it the cases it does not decide itself, and no accuracy is promised for
  it.  [float_repr] is [repr] of a float, the text [csv.writer] writes for
  a float cell.  Everything below holds whatever these two are. *)

Section Runtime.

Import Py.

Variable libm_pow : float → float → float.
Variable float_repr : float → string.

(** CPython's [float_pow(v, w)], case by case as [floatobject.c] decides
    them.  A negative base with a fractional exponent leaves the real
    numbers: CPython goes on with complex arithmetic, which is not followed
    here ([ComplexResult]). *)
Definition float_pow (iv iw : float) : result float :=
  if SFeqb iw pos_zero then Return one
  else if is_nan iv then Return iv
  else if is_nan iw then Return (if SFeqb iv one then one else iw)
  else if is_inf iw then
    let av := SFabs iv in
    if SFeqb av one then Return one
    else if Bool.eqb (SFltb pos_zero iw) (SFltb one av)
         then Return (SFabs iw)
         else Return pos_zero
  else if is_inf iv then
    let odd := is_odd_integer iw in
    if SFltb pos_zero iw
    then Return (if odd then iv else SFabs iv)
    else Return (if odd then S754_zero (SFltb iv pos_zero) else pos_zero)
  else if SFeqb iv pos_zero then
    if SFltb iw pos_zero then Raise ZeroDivisionError
    else Return (if is_odd_integer iw then iv else pos_zero)
  else if SFltb iv pos_zero && negb (is_integer iw) then Raise ComplexResult
  else
    let negate_result := SFltb iv pos_zero && is_odd_integer iw in
    let av := if SFltb iv pos_zero then SFopp iv else iv in
    if SFeqb av one then Return (if negate_result then SFopp one else one)
    else
      let ix := libm_pow av iw in
      if is_inf ix then Raise OverflowError
      else Return (if negate_result then SFopp ix else ix).

(** [a ** b]: exact on an int raised to a non-negative int, [float_pow]
    on the converted operands otherwise. *)
Definition pow (a b : num) : result num :=
  match a, b with
  | NInt x, NInt y =>
      if 0 <=? y then Return (NInt (x ^ y))
      else v ← float_of_int x; w ← float_of_int y; NFloat <$> float_pow v w
  | _, _ => v ← to_float a; w ← to_float b; NFloat <$> float_pow v w
  end.

(** The text [csv.writer] writes for a cell: a string as it is, [None] as
    the empty string, any other value through [str] (for a float, [repr]). *)
Definition csv_cell (v : pyval) : string :=
  match v with
  | VNone => ""
  | VBool b => if b then "True" else "False"
  | VInt z => pretty z
  | VFloat f => float_repr f
  | VStr s => s
  end.

(** ** Constants of [scorer_app.py] *)

Definition AR_SYSTEMS : list string := ["2D/AR"; "AR-VIU"].

Definition BOX_W_INCHES : float := literal 584 2.
Definition BOX_H_INCHES : float := literal 631 2.
Definition IMG_W_PX : Z := 1110.
Definition IMG_H_PX : Z := 1215.
Definition PX_PER_INCH : float :=
  fdiv (fadd (fdiv (nearest IMG_W_PX) BOX_W_INCHES)
             (fdiv (nearest IMG_H_PX) BOX_H_INCHES))
       (nearest 2).
Definition MM_PER_PX : float := fdiv (literal 254 1) PX_PER_INCH.

Definition CSV_HEADER : list string :=
  [ "image_code"; "measurement_id";
    "point1_x"; "point1_y";
    "point2_x"; "point2_y";
    "distance_px"; "distance_mm";
    "timestamp" ].

(** ** The store *)

(** An entry of the manifest: the fields of it that the program reads. *)
Record ImageRecord := { system : option string }.

(** [scores.csv] as the rows written to it. *)
Abbreviation csv_file := (list (list string)).

(** A scorer's directory below [scorer_data/]. *)
Record directory := { scores_csv : option csv_file }.

(** What the handlers see of the disk: [aligned_output/manifest.json],
    when it exists, and the directories below [scorer_data/]. *)
Record disk := {
  manifest_json : option (gmap string ImageRecord);
  scorer_data : gmap string directory;
}.

Definition load_manifest (fs : disk) : gmap string ImageRecord :=
  match manifest_json fs with
  | Some manifest => manifest
  | None => ∅
  end.

(** [sorted] is a stable merge sort; on strings it orders by code point. *)
Definition sorted (l : list string) : list string := merge_sort String.le l.

Definition get_image_list (fs : disk) : list string :=
  let manifest := load_manifest fs in
  sorted (elements (dom manifest)).

(** *** Reading a log: [open] and [csv.DictReader] *)

(** [open(path)] reads text with universal newlines: every ["\r\n"] and
    every other ["\r"] of the file reaches the reader as ["\n"].  The ends
    of the rows are read as they should be; inside a cell the translation
    shows.  ([save_measurements] opens the log with [newline=""], which
    writes every cell as it is.) *)
Fixpoint universal_newlines (s : string) : string :=
  match s with
  | EmptyString => EmptyString
  | String c s' =>
      if Ascii.eqb c "013" then
        match s' with
        | String c' s'' =>
            if Ascii.eqb c' "010" then String "010" (universal_newlines s'')
            else String "010" (universal_newlines s')
        | EmptyString => String "010" EmptyString
        end
      else String c (universal_newlines s')
  end.

(** The rows of a file as [csv.reader] gets them through [open(path)]. *)
Definition read_text (f : csv_file) : csv_file :=
  (λ row : list string, universal_newlines <$> row) <$> f.

(** One row as a dict: [dict(zip(fieldnames, row))], then every field name
    past the end of the row bound to [None].  (The surplus cells of a long
    row go under the key [None], which no lookup by name reaches.) *)
Definition dict_row (fieldnames row : list string) : gmap string (option string) :=
  let d := foldl (λ d kv, <[kv.1 := Some kv.2]> d) ∅ (zip fieldnames row) in
  foldl (λ d k, <[k := None]> d) d (drop (length row) fieldnames).

(** The first row gives the field names; empty rows are skipped. *)
Definition DictReader (f : csv_file) : list (gmap string (option string)) :=
  match f with
  | [] => []
  | fieldnames :: rows =>
      dict_row fieldnames <$> filter (λ row, row ≠ []) rows
  end.

Definition getitem {V} (d : gmap string V) (key : string) : result V :=
  match d !! key with
  | Some v => Return v
  | None => Raise (KeyError key)
  end.

Definition scores_path (fs : disk) (scorer_id : string) : option csv_file :=
  d ← scorer_data fs !! scorer_id; scores_csv d.

(** The body of [for row in csv.DictReader(f): scored.add(row["image_code"])]. *)
Fixpoint add_image_codes (rows : list (gmap string (option string)))
    (scored : gset (option string)) : result (gset (option string)) :=
  match rows with
  | [] => Return scored
  | row :: rows =>
      code ← getitem row "image_code";
      add_image_codes rows (scored ∪ {[code]})
  end.

(** Return set of image codes already scored. *)
Definition get_scorer_progress (fs : disk) (scorer_id : string)
    : result (gset (option string)) :=
  match scores_path fs scorer_id with
  | Some f => add_image_codes (DictReader (read_text f)) ∅
  | None => Return ∅
  end.

(** *** Writing a log *)

(** An element of the submitted [measurements] list: a JSON object, or a
    scalar (on which [m["p1_x"]] raises [TypeError]). *)
Inductive item :=
  | JObject (fields : gmap string pyval)
  | JScalar (v : pyval).

Definition subscript (m : item) (key : string) : result pyval :=
  match m with
  | JObject fields => getitem fields key
  | JScalar _ => Raise TypeError
  end.

(** [m[k1] - m[k2]] *)
Definition difference (m : item) (k1 k2 : string) : result num :=
  a ← subscript m k1; b ← subscript m k2;
  x ← as_num a; y ← as_num b;
  sub x y.

(** [f"{x:.2f}"] *)
Definition format_num (x : num) : result string :=
  format_2f <$> to_float x.

(** The distances of one measurement, as the loop body computes them:
    [dist_px] and [dist_mm]. *)
Definition distances (m : item) : result (num * num) :=
  dx ← difference m "p1_x" "p2_x";
  dy ← difference m "p1_y" "p2_y";
  dx2 ← pow dx (NInt 2);
  dy2 ← pow dy (NInt 2);
  s ← add dx2 dy2;
  dist_px ← pow s (NFloat half);
  dist_mm ← mul dist_px (NFloat MM_PER_PX);
  Return (dist_px, dist_mm).

(** The row that [writer.writerow] receives for one measurement;
    [timestamp] is [datetime.now().isoformat()] at that moment. *)
Definition measurement_row (image_code : pyval) (m : item) (timestamp : string)
    : result (list string) :=
  '(dist_px, dist_mm) ← distances m;
  id ← subscript m "id";
  p1_x ← subscript m "p1_x";
  p1_y ← subscript m "p1_y";
  p2_x ← subscript m "p2_x";
  p2_y ← subscript m "p2_y";
  px ← format_num dist_px;
  mm ← format_num dist_mm;
  Return [ csv_cell image_code; csv_cell id;
           csv_cell p1_x; csv_cell p1_y;
           csv_cell p2_x; csv_cell p2_y;
           px; mm;
           timestamp ].

(** The loop [for m in measurements]: rows reach the file one by one; an
    exception ends the loop and leaves the rows already written.  [now i]
    is the clock's text at the [i]-th row of this call. *)
Fixpoint write_rows (now : nat → string) (image_code : pyval)
    (measurements : list item) (i : nat) (f : csv_file)
    : csv_file * result () :=
  match measurements with
  | [] => (f, Return ())
  | m :: rest =>
      match measurement_row image_code m (now i) with
      | Return row => write_rows now image_code rest (S i) (f ++ [row])
      | Raise e => (f, Raise e)
      end
  end.

(** Save paired-point measurements for one image. *)
Definition save_measurements (fs : disk) (now : nat → string)
    (scorer_id : string) (image_code : pyval) (measurements : list item)
    : disk * result () :=
  let file_exists := scores_path fs scorer_id in
  let f := match file_exists with
           | Some f => f
           | None => [CSV_HEADER]
           end in
  let '(f', r) := write_rows now image_code measurements 0 f in
  ({| manifest_json := manifest_json fs;
      scorer_data := <[scorer_id := {| scores_csv := Some f' |}]> (scorer_data fs) |},
   r).

(** ** Routes *)

(** [if not x] on a JSON scalar. *)
Definition truthy (v : pyval) : bool :=
  match v with
  | VNone => false
  | VBool b => b
  | VInt z => negb (z =? 0)
  | VFloat f => negb (SFeqb f pos_zero)
  | VStr s => negb (String.eqb s "")
  end.

(** [session.get("scorer_id")] followed by [if not scorer_id]. *)
Definition active (session : option string) : option string :=
  match session with
  | Some scorer_id => if String.eqb scorer_id "" then None else Some scorer_id
  | None => None
  end.

(** What [/score] answers. *)
Inductive page :=
  | Redirect (endpoint : string)
  | DonePage (total : nat) (scorer_id : string)
  | ScorePage (image_code image_url reference_url : string)
      (progress_done progress_total : nat) (scorer_id : string)
      (mm_per_px : float).

Definition score_next (fs : disk) (session : option string) : result page :=
  match active session with
  | None => Return (Redirect "index")
  | Some scorer_id =>
      let all_codes := get_image_list fs in
      scored ← get_scorer_progress fs scorer_id;
      let remaining := filter (λ c, Some c ∉ scored) all_codes in
      match remaining with
      | [] => Return (DonePage (length all_codes) scorer_id)
      | code :: _ =>
          let manifest := load_manifest fs in
          let system :=
            default "" (manifest !! code ≫= system) in
          let ref_type := if decide (system ∈ AR_SYSTEMS) then "ar" else "screen" in
          Return (ScorePage code ("/image/" +:+ code) ("/reference/" +:+ ref_type)
                    (size scored) (length all_codes) scorer_id MM_PER_PX)
      end
  end.

(** The JSON body of a [/submit] request: [data.get("image_code")] is
    [None] when the key is absent, [data.get("measurements", [])] is the
    empty list when it is. *)
Record body := {
  body_image_code : pyval;
  body_measurements : option (list item);
}.

(** What [/submit] answers: an error with status 400, or the ok reply. *)
Inductive reply :=
  | ErrorReply (error : string)
  | OkReply (next : string).

Definition submit_scores (fs : disk) (now : nat → string)
    (session : option string) (data : body) : disk * result reply :=
  match active session with
  | None => (fs, Return (ErrorReply "No scorer session"))
  | Some scorer_id =>
      let image_code := body_image_code data in
      let measurements := default [] (body_measurements data) in
      if negb (truthy image_code) then (fs, Return (ErrorReply "No image code"))
      else
        let '(fs', r) := save_measurements fs now scorer_id image_code measurements in
        (fs', r ≫= λ _, Return (OkReply "/score"))
  end.

(** What [/progress] answers. *)
Inductive progress_reply :=
  | ProgressRedirect (endpoint : string)
  | Progress (scorer_id : string) (total scored : nat) (remaining : Z).

Definition progress (fs : disk) (session : option string) : result progress_reply :=
  match active session with
  | None => Return (ProgressRedirect "index")
  | Some scorer_id =>
      let all_codes := get_image_list fs in
      scored ← get_scorer_progress fs scorer_id;
      Return (Progress scorer_id (length all_codes) (size scored)
                (Z.of_nat (length all_codes) - Z.of_nat (size scored)))
  end.

(** [round(scored / total * 100) if total else 0] *)
Definition pct (scored total : nat) : result Z :=
  if (Z.of_nat total =? 0) then Return 0
  else
    q ← int_true_divide (Z.of_nat scored) (Z.of_nat total);
    p ← mul (NFloat q) (NInt 100);
    f ← to_float p;
    round f.

Record scorer_status := {
  status_id : string;
  status_scored : nat;
  status_total : nat;
  status_pct : Z;
}.

(** The loop of [admin_status] over the sorted entries of [scorer_data/]. *)
Fixpoint status_rows (fs : disk) (total : nat) (names : list string)
    : result (list scorer_status) :=
  match names with
  | [] => Return []
  | name :: names =>
      match scores_path fs name with
      | Some _ =>
          scored ← get_scorer_progress fs name;
          p ← pct (size scored) total;
          scorers ← status_rows fs total names;
          Return ({| status_id := name; status_scored := size scored;
                     status_total := total; status_pct := p |} :: scorers)
      | None => status_rows fs total names
      end
  end.

(** Overview of all scorers' progress. *)
Definition admin_status (fs : disk) : result (nat * list scorer_status) :=
  let all_codes := get_image_list fs in
  let total := length all_codes in
  scorers ← status_rows fs total (sorted (elements (dom (scorer_data fs))));
  Return (total, scorers).

(** *** [/start] *)








(** *** [/image/<code>] and [/reference/<ref_type>] *)

Definition REFERENCE_AR : string := "reference_png.png".
Definition REFERENCE_SCREEN : string := "reference_screen.png".

(** The image files the handlers look for: the names of the files of
    [aligned_output/], and whether each of the two reference images is
    there. *)
Record assets := {
  aligned_output : gset string;
  reference_ar_exists : bool;
  reference_screen_exists : bool;
}.

(** [send_file(path)], or ["Not found"] with status 404. *)
Inductive file_reply :=
  | SendFile (path : string)
  | NotFound.

Definition serve_image (a : assets) (code : string) : file_reply :=
  let img_path := code +:+ ".png" in
  if decide (img_path ∈ aligned_output a)
  then SendFile ("aligned_output/" +:+ img_path)
  else NotFound.

Definition serve_reference (a : assets) (ref_type : string) : file_reply :=
  if String.eqb ref_type "ar" && reference_ar_exists a then SendFile REFERENCE_AR
  else if String.eqb ref_type "screen" && reference_screen_exists a
       then SendFile REFERENCE_SCREEN
  else NotFound.

(** *** [/admin/download] *)

(** What a member of the archive holds: a scorer's log, or the manifest.
    The compression is the [zipfile] module's and is left abstract. *)
Inductive member :=
  | LogMember (rows : csv_file)
  | ManifestMember (manifest : gmap string ImageRecord).

(** The loop of [download_all_scores] over the sorted entries of
    [scorer_data/]: the archive names and contents it writes. *)
Fixpoint zip_logs (fs : disk) (names : list string) : list (string * member) :=
  match names with
  | [] => []
  | name :: names =>
      match scores_path fs name with
      | Some f => (name +:+ "/scores.csv", LogMember f) :: zip_logs fs names
      | None => zip_logs fs names
      end
  end.

(** Download all scorer data as a zip file: the members of the archive, in
    the order they are written.  ([scorer_data/] is made when the program
    starts, so the check that it exists passes.) *)
Definition download_all_scores (fs : disk) : list (string * member) :=
  zip_logs fs (sorted (elements (dom (scorer_data fs))))
  ++ match manifest_json fs with
     | Some manifest => [("manifest.json", ManifestMember manifest)]
     | None => []
     end.

(** ** Vocabulary of the properties *)

(** The JSON object the client submits for one pair of points. *)
Definition measurement (id : pyval) (p1 p2 : pyval * pyval) : item :=
  JObject (<["id" := id]> (<["p1_x" := p1.1]> (<["p1_y" := p1.2]>
          (<["p2_x" := p2.1]> (<["p2_y" := p2.2]> ∅))))).

(** A coordinate that is a finite number: an int, or a float that is
    neither an infinity nor a NaN. *)
Definition finite_coordinate (v : pyval) : bool :=
  match v with
  | VInt _ | VBool _ => true
  | VFloat (S754_zero _) | VFloat (S754_finite _ _ _) => true
  | _ => false
  end.

Definition finite_point (p : pyval * pyval) : Prop :=
  finite_coordinate p.1 = true ∧ finite_coordinate p.2 = true.





(** The image codes of the rows of a log, as [get_scorer_progress] reads
    them off a log that starts with the header. *)
Definition codes_of (rows : csv_file) : gset (option string) :=
  list_to_set (Some <$> omap head (read_text rows)).

(** A [/submit] request, with the clock readings it will see. *)
Record request := {
  req_now : nat → string;
  req_session : option string;
  req_data : body;
}.

(** The store after a sequence of [/submit] requests; the other routes
    do not write. *)
Definition run (fs : disk) (reqs : list request) : disk :=
  foldl (λ fs r, (submit_scores fs (req_now r) (req_session r) (req_data r)).1) fs reqs.



(** Two outcomes that agree once squared: the same exception, or two
    numbers with the same square. *)
Definition same_square (r r' : result num) : Prop :=
  match r, r' with
  | Return d, Return d' => pow d (NInt 2) = pow d' (NInt 2)
  | Raise e, Raise e' => e = e'
  | _, _ => False
  end.

(** [a - b] on two JSON scalars, as [difference] evaluates it. *)
Definition minus (a b : pyval) : result num :=
  x ← as_num a; y ← as_num b; sub x y.


(** The image a [/score] answer assigns, if it assigns one. *)
Definition assigned_image (r : result page) : option string :=
  match r with
  | Return (ScorePage code _ _ _ _ _ _) => Some code
  | _ => None
  end.

(** [remaining] in [score_next]. *)
Definition remaining_codes (fs : disk) (scored : gset (option string)) : list string :=
  filter (λ c, Some c ∉ scored) (get_image_list fs).

(** The two distance cells of the row [measurement_row] builds. *)
Definition distance_cells (m : item) : result (string * string) :=
  '(dist_px, dist_mm) ← distances m;
  px ← format_num dist_px;
  mm ← format_num dist_mm;
  Return (px, mm).

(** ** Sample data *)

(** A [pow] that squares by multiplication and takes square roots with the
    correctly rounded [sqrt]: one possible C library. *)
Definition sample_pow (x y : float) : float :=
  if SFeqb y two then fmul x x
  else if SFeqb y half then SFsqrt prec emax x
  else S754_nan.

(** A stand-in for [repr] on floats. *)
Definition sample_repr (f : float) : string := format_2f f.

Definition sample_clock (i : nat) : string := "2026-11-04T12:00:0" +:+ pretty i.

(** The catalog of the specification's example scenario. *)
Definition sample_catalog : gmap string ImageRecord :=
  <["A001" := {| system := Some "AR-VIU" |}]>
    (<["A002" := {| system := Some "2D/Screen" |}]> ∅).

Definition sample_store : disk :=
  {| manifest_json := Some sample_catalog; scorer_data := ∅ |}.

(** The pair of the example scenario: (100, 100) and (103, 104). *)
Definition sample_pair : item :=
  measurement (VInt 1) (VInt 100, VInt 100) (VInt 103, VInt 104).

Definition sample_body (image_code : string) (measurements : list item) : body :=
  {| body_image_code := VStr image_code; body_measurements := Some measurements |}.

Definition sample_request (scorer_id image_code : string) : request :=
  {| req_now := sample_clock; req_session := Some scorer_id;
     req_data := sample_body image_code [sample_pair] |}.

(** ** Vocabulary of the further properties *)

(** A string that holds a carriage return. *)
Definition has_carriage_return (s : string) : Prop :=
  "013"%char ∈ list_ascii_of_string s.

(** The store before anyone has scored: the manifest, when there is one,
    and an empty [scorer_data/]. *)
Definition fresh (manifest : option (gmap string ImageRecord)) : disk :=
  {| manifest_json := manifest; scorer_data := ∅ |}.




(** ** Further sample data *)



(** A code that ends in a carriage return, and a catalog of that one
    image. *)
Definition cr_code : string := String "A" (String "013" EmptyString).

Definition cr_store : disk :=
  fresh (Some {[cr_code := {| system := None |}]}).

(** The image of A001 and the AR reference are on disk, the screen
    reference is not. *)
Definition sample_assets : assets :=
  {| aligned_output := {["A001.png"]};
     reference_ar_exists := true;
     reference_screen_exists := false |}.


(** ** The error monad *)

Lemma bind_Return {A B} (m : result A) (f : A → result B) (b : B) :
  m ≫= f = Return b → ∃ a, m = Return a ∧ f a = Return b.
Proof. destruct m as [a|e]; simpl; [eauto | discriminate]. Qed.

Lemma fmap_Return {A B} (f : A → B) (m : result A) (b : B) :
  f <$> m = Return b → ∃ a, m = Return a ∧ b = f a.
Proof. destruct m as [a|e]; simpl; [|discriminate]. intros [= <-]. eauto. Qed.

Ltac inv_result :=
  repeat match goal with
    | H : _ ≫= _ = Return _ |- _ =>
        let a := fresh "a" in let Ha := fresh "Ha" in let H' := fresh "H" in
        apply bind_Return in H as (a & Ha & H')
    | H : _ <$> _ = Return _ |- _ =>
        let a := fresh "a" in let Ha := fresh "Ha" in let H' := fresh "H" in
        apply fmap_Return in H as (a & Ha & H')
    | H : Return _ = Return _ |- _ => injection H as H
    | H : Raise _ = Return _ |- _ => discriminate H
    end.

(** ** Binary64 subtraction and squaring *)

Lemma binary_round_aux_abs (s : bool) (m e : Z) (l : location) :
  SFabs (binary_round_aux prec emax s m e l)
  = SFabs (binary_round_aux prec emax false m e l).
Proof.
  unfold binary_round_aux.
  destruct (shr_fexp prec emax m e l) as [mrs' e'].
  destruct (shr_fexp prec emax _ e' loc_Exact) as [mrs'' e''].
  destruct (shr_m mrs''); [reflexivity| |reflexivity].
  destruct (e'' <=? emax - prec); reflexivity.
Qed.

Lemma binary_normalize_abs_opp (z e : Z) :
  SFabs (binary_normalize prec emax (- z) e false)
  = SFabs (binary_normalize prec emax z e false).
Proof.
  destruct z as [|p|p]; simpl; [reflexivity| |]; unfold binary_round;
    destruct (shl_align _ _ _) as [mz ez];
    rewrite (binary_round_aux_abs true); reflexivity.
Qed.

(** [y - x] is [x - y] up to the sign. *)
Lemma fsub_abs_sym (x y : float) : SFabs (fsub y x) = SFabs (fsub x y).
Proof.
  destruct x as [sx|sx| |sx mx ex], y as [sy|sy| |sy my ey];
    try (destruct sx, sy; reflexivity); try (destruct sx; reflexivity);
    try (destruct sy; reflexivity); try reflexivity.
  unfold fsub, SFsub. rewrite (Z.min_comm ey ex).
  rewrite <- binary_normalize_abs_opp. f_equal. f_equal. lia.
Qed.

(** [x - x] is [+0.0] for a finite [x]. *)
Lemma fsub_diag (x : float) :
  is_nan x = false → is_inf x = false → fsub x x = pos_zero.
Proof.
  destruct x as [s|s| |s m e]; try discriminate; intros _ _.
  - destruct s; reflexivity.
  - unfold fsub, SFsub, shl_align. rewrite Z.min_id, Z.sub_diag. simpl.
    reflexivity.
Qed.

(** ** Squares of differences *)

Lemma float_of_int_2 : float_of_int 2 = Return two.
Proof. reflexivity. Qed.

(** [x ** 2] on a float looks at [x] through [fabs] only. *)
Lemma float_pow_two_abs (x : float) : float_pow (SFabs x) two = float_pow x two.
Proof. destruct x as [s|s| |s m e]; try destruct s; reflexivity. Qed.

Lemma pow_2_float (f : float) : pow (NFloat f) (NInt 2) = NFloat <$> float_pow f two.
Proof. reflexivity. Qed.

Lemma to_float_cases (n : num) :
  (∃ f, to_float n = Return f) ∨ to_float n = Raise OverflowError.
Proof.
  destruct n as [z|f]; simpl; [|eauto].
  unfold float_of_int. destruct (nearest z); eauto.
Qed.

Lemma as_num_cases (v : pyval) :
  (∃ n, as_num v = Return n) ∨ as_num v = Raise TypeError.
Proof. destruct v; simpl; eauto. Qed.

Lemma sub_same_square (a b : num) : same_square (sub a b) (sub b a).
Proof.
  assert (Hf : ∀ x y : float,
    pow (NFloat (fsub x y)) (NInt 2) = pow (NFloat (fsub y x)) (NInt 2)).
  { intros x y. rewrite !pow_2_float, <- (float_pow_two_abs (fsub x y)),
      <- (float_pow_two_abs (fsub y x)), (fsub_abs_sym x y). reflexivity. }
  destruct a as [x|x], b as [y|y].
  - change (Return (NInt ((x - y) ^ 2)) = Return (NInt ((y - x) ^ 2))).
    do 2 f_equal. rewrite !Z.pow_2_r. lia.
  - unfold sub, to_float, float_of_int.
    destruct (nearest x); first [exact (Hf _ _) | reflexivity].
  - unfold sub, to_float, float_of_int.
    destruct (nearest y); first [exact (Hf _ _) | reflexivity].
  - exact (Hf _ _).
Qed.

Lemma minus_same_square (a b : pyval) : same_square (minus a b) (minus b a).
Proof.
  unfold minus.
  destruct (as_num_cases a) as [[x ->]| ->], (as_num_cases b) as [[y ->]| ->];
    simpl; auto using sub_same_square.
Qed.

Lemma subscript_measurement (id : pyval) (p1 p2 : pyval * pyval) :
  subscript (measurement id p1 p2) "id" = Return id
  ∧ subscript (measurement id p1 p2) "p1_x" = Return p1.1
  ∧ subscript (measurement id p1 p2) "p1_y" = Return p1.2
  ∧ subscript (measurement id p1 p2) "p2_x" = Return p2.1
  ∧ subscript (measurement id p1 p2) "p2_y" = Return p2.2.
Proof. unfold subscript, measurement, getitem. by simplify_map_eq. Qed.

Lemma difference_measurement (id : pyval) (p1 p2 : pyval * pyval) :
  difference (measurement id p1 p2) "p1_x" "p2_x" = minus p1.1 p2.1
  ∧ difference (measurement id p1 p2) "p1_y" "p2_y" = minus p1.2 p2.2.
Proof.
  destruct (subscript_measurement id p1 p2) as (_ & H1 & H2 & H3 & H4).
  unfold difference. rewrite H1, H2, H3, H4. done.
Qed.

(** The distances of a pair of points do not depend on the order of the
    two points (nor on the measurement's id). *)
Lemma distances_sym (id id' : pyval) (p1 p2 : pyval * pyval) :
  distances (measurement id p1 p2) = distances (measurement id' p2 p1).
Proof.
  unfold distances.
  destruct (difference_measurement id p1 p2) as [-> ->].
  destruct (difference_measurement id' p2 p1) as [-> ->].
  pose proof (minus_same_square p1.1 p2.1) as Hx.
  pose proof (minus_same_square p1.2 p2.2) as Hy.
  unfold same_square in Hx, Hy.
  destruct (minus p1.1 p2.1) as [dx|ex], (minus p2.1 p1.1) as [dx'|ex'];
    try done; simpl; [|congruence].
  destruct (minus p1.2 p2.2) as [dy|ey], (minus p2.2 p1.2) as [dy'|ey'];
    try done; simpl; [|congruence].
  rewrite Hx, Hy. reflexivity.
Qed.

Lemma minus_diag (v : pyval) :
  finite_coordinate v = true →
  minus v v = Return (NInt 0) ∨ minus v v = Return (NFloat pos_zero).
Proof.
  destruct v as [|b|z|f|s]; try discriminate; intros Hv; unfold minus; simpl.
  - left. by rewrite Z.sub_diag.
  - left. by rewrite Z.sub_diag.
  - right. rewrite fsub_diag; [done|by destruct f..].
Qed.

(** A point is at distance zero from itself, in pixels and in
    millimetres. *)
Lemma distances_diag (id : pyval) (p : pyval * pyval) :
  finite_point p →
  distances (measurement id p p) = Return (NFloat pos_zero, NFloat pos_zero).
Proof.
  intros [Hx Hy]. unfold distances.
  destruct (difference_measurement id p p) as [-> ->].
  destruct (minus_diag _ Hx) as [-> | ->], (minus_diag _ Hy) as [-> | ->];
    reflexivity.
Qed.


(** For integer coordinates the sum of squares is exact: the only rounding
    is in the conversion of the sum to a float and in the power. *)
Lemma distances_int_points (id : pyval) (a b c d : Z) :
  distances (measurement id (VInt a, VInt b) (VInt c, VInt d))
  = (v ← float_of_int ((a - c) ^ 2 + (b - d) ^ 2);
     dist_px ← float_pow v half;
     Return (NFloat dist_px, NFloat (fmul dist_px MM_PER_PX))).
Proof.
  unfold distances.
  destruct (difference_measurement id (VInt a, VInt b) (VInt c, VInt d)) as [-> ->].
  unfold minus, pow. cbn -[float_of_int float_pow fmul Z.pow MM_PER_PX half].
  destruct (float_of_int _) as [v|e]; [|done].
  cbn -[float_pow fmul MM_PER_PX half]. by destruct (float_pow v half).
Qed.

(** ** Rows of a log *)




Lemma measurement_row_cells (image_code : pyval) (m : item) (ts : string)
    (row : list string) :
  measurement_row image_code m ts = Return row →
  ∃ dist_px dist_mm d_px d_mm id p1_x p1_y p2_x p2_y,
    distances m = Return (dist_px, dist_mm)
    ∧ to_float dist_px = Return d_px ∧ to_float dist_mm = Return d_mm
    ∧ subscript m "id" = Return id
    ∧ subscript m "p1_x" = Return p1_x ∧ subscript m "p1_y" = Return p1_y
    ∧ subscript m "p2_x" = Return p2_x ∧ subscript m "p2_y" = Return p2_y
    ∧ row = [ csv_cell image_code; csv_cell id;
              csv_cell p1_x; csv_cell p1_y; csv_cell p2_x; csv_cell p2_y;
              format_2f d_px; format_2f d_mm; ts ].
Proof.
  unfold measurement_row, format_num. intros H.
  apply bind_Return in H as ([dist_px dist_mm] & Hd & H).
  inv_result. subst. by repeat eexists.
Qed.


Lemma measurement_row_distance_cells (image_code : pyval) (m : item) (ts : string)
    (row : list string) :
  measurement_row image_code m ts = Return row →
  ∃ px mm, distance_cells m = Return (px, mm)
           ∧ row !! 6%nat = Some px ∧ row !! 7%nat = Some mm.
Proof.
  intros H. apply measurement_row_cells in H
    as (dist_px & dist_mm & d_px & d_mm & ? & ? & ? & ? & ?
        & Hd & Hpx & Hmm & _ & _ & _ & _ & _ & ->).
  exists (format_2f d_px), (format_2f d_mm). split; [|done].
  unfold distance_cells, format_num. rewrite Hd. simpl. by rewrite Hpx, Hmm.
Qed.


(** ** Reading a log back *)





Lemma read_text_header : read_text [CSV_HEADER] = [CSV_HEADER].
Proof. reflexivity. Qed.

Lemma codes_of_cons (row : list string) (rows : csv_file) :
  codes_of (row :: rows)
  = match row with
    | [] => codes_of rows
    | c :: _ => {[Some (universal_newlines c)]} ∪ codes_of rows
    end.
Proof. by destruct row. Qed.


(** The completed set holds the first cells of the rows, as read back. *)
Lemma elem_of_codes_of (c : option string) (rows : csv_file) :
  c ∈ codes_of rows
  ↔ ∃ row code, row ∈ rows ∧ head row = Some code
                ∧ c = Some (universal_newlines code).
Proof.
  induction rows as [|row rows IH].
  - unfold codes_of. simpl. split; [set_solver|].
    intros (row & code & Hin & _). by apply not_elem_of_nil in Hin.
  - rewrite codes_of_cons. destruct row as [|c0 cells].
    + rewrite IH. split.
      * intros (row & code & Hin & Hh & ->). exists row, code. set_solver.
      * intros (row & code & [->|Hin]%elem_of_cons & Hh & ->); [done|]. eauto.
    + rewrite elem_of_union, elem_of_singleton, IH. split.
      * intros [->|(row & code & Hin & Hh & ->)].
        -- exists (c0 :: cells), c0. set_solver.
        -- exists row, code. set_solver.
      * intros (row & code & [->|Hin]%elem_of_cons & Hh & ->).
        -- left. simpl in Hh. by injection Hh as ->.
        -- right. eauto.
Qed.




(** ** What a submission does to the store *)



(** The three ways [submit_scores] ends. *)
Lemma submit_scores_cases (fs : disk) (now : nat → string)
    (session : option string) (data : body) :
  (active session = None
   ∧ submit_scores fs now session data = (fs, Return (ErrorReply "No scorer session")))
  ∨ (is_Some (active session) ∧ truthy (body_image_code data) = false
     ∧ submit_scores fs now session data = (fs, Return (ErrorReply "No image code")))
  ∨ (∃ scorer_id fs' r,
       active session = Some scorer_id ∧ truthy (body_image_code data) = true
       ∧ save_measurements fs now scorer_id (body_image_code data)
           (default [] (body_measurements data)) = (fs', r)
       ∧ submit_scores fs now session data
         = (fs', r ≫= λ _, Return (OkReply "/score"))).
Proof.
  unfold submit_scores. destruct (active session) as [scorer_id|]; [|by left].
  right. destruct (truthy (body_image_code data)); simpl; [right|left; eauto].
  destruct (save_measurements _ _ _ _ _) as [fs' r] eqn:Hs.
  by exists scorer_id, fs', r.
Qed.













(** ** The header of a log *)




(** ** The order of assignment *)

Lemma elem_of_sorted (c : string) (l : list string) : c ∈ sorted l ↔ c ∈ l.
Proof. unfold sorted. by rewrite merge_sort_Permutation. Qed.

Lemma sorted_StronglySorted (l : list string) : StronglySorted String.le (sorted l).
Proof. apply StronglySorted_merge_sort; apply _. Qed.

Lemma elem_of_get_image_list (fs : disk) (c : string) :
  c ∈ get_image_list fs ↔ c ∈ dom (load_manifest fs).
Proof. unfold get_image_list. by rewrite elem_of_sorted, elem_of_elements. Qed.



Lemma score_next_remaining (fs : disk) (session : option string)
    (scorer_id : string) (scored : gset (option string)) :
  active session = Some scorer_id →
  get_scorer_progress fs scorer_id = Return scored →
  assigned_image (score_next fs session) = head (remaining_codes fs scored)
  ∧ (remaining_codes fs scored = [] →
     score_next fs session = Return (DonePage (length (get_image_list fs)) scorer_id)).
Proof.
  intros Ha Hp. unfold score_next, remaining_codes. rewrite Ha, Hp. simpl.
  by destruct (filter _ _).
Qed.


(** ** The administrator's overview *)

Lemma float_of_int_100 : float_of_int 100 = Return hundred.
Proof. reflexivity. Qed.

Lemma pct_zero_total (scored : nat) : pct scored 0 = Return 0.
Proof. reflexivity. Qed.

(** With images in the catalog the percentage is the rounded product of the
    quotient and 100. *)
Lemma pct_formula (scored total : nat) :
  total ≠ 0%nat →
  pct scored total
  = (q ← int_true_divide (Z.of_nat scored) (Z.of_nat total); round (fmul q hundred)).
Proof.
  intros Ht. unfold pct.
  destruct (Z.eqb_spec (Z.of_nat total) 0) as [?|_]; [lia|].
  destruct (int_true_divide _ _) as [q|e]; reflexivity.
Qed.

(** The quotient and the product are rounded to binary64 before [round]
    sees them: 23 of 40 is 57.49999999999999 percent, reported as 57. *)
Lemma pct_23_of_40 : pct 23 40 = Return 57.
Proof. reflexivity. Qed.

Lemma int_true_divide_no_zero_division (a b : Z) :
  b ≠ 0 → int_true_divide a b ≠ Raise ZeroDivisionError.
Proof.
  intros Hb. unfold int_true_divide.
  destruct (Z.eqb_spec b 0) as [?|_]; [done|].
  by destruct (fdiv _ _).
Qed.

Lemma round_no_zero_division (f : float) : round f ≠ Raise ZeroDivisionError.
Proof. by destruct f. Qed.

Lemma pct_no_zero_division (scored total : nat) :
  pct scored total ≠ Raise ZeroDivisionError.
Proof.
  destruct (decide (total = 0%nat)) as [->|Ht]; [done|].
  rewrite pct_formula by done.
  pose proof (int_true_divide_no_zero_division (Z.of_nat scored) (Z.of_nat total)).
  destruct (int_true_divide _ _) as [q|e]; simpl.
  - apply round_no_zero_division.
  - intros [= ->]. naive_solver lia.
Qed.

Lemma add_image_codes_no_zero_division
    (rows : list (gmap string (option string))) (scored : gset (option string)) :
  add_image_codes rows scored ≠ Raise ZeroDivisionError.
Proof.
  revert scored. induction rows as [|row rows IH]; intros scored; [done|].
  simpl. unfold getitem. destruct (row !! "image_code"); simpl; [apply IH|done].
Qed.

Lemma get_scorer_progress_no_zero_division (fs : disk) (scorer_id : string) :
  get_scorer_progress fs scorer_id ≠ Raise ZeroDivisionError.
Proof.
  unfold get_scorer_progress.
  destruct (scores_path fs scorer_id); [apply add_image_codes_no_zero_division|done].
Qed.

Lemma status_rows_no_zero_division (fs : disk) (total : nat) (names : list string) :
  status_rows fs total names ≠ Raise ZeroDivisionError.
Proof.
  induction names as [|name names IH]; [done|]. simpl.
  destruct (scores_path fs name); [|done].
  pose proof (get_scorer_progress_no_zero_division fs name).
  destruct (get_scorer_progress fs name) as [scored|e]; simpl; [|congruence].
  pose proof (pct_no_zero_division (size scored) total).
  destruct (pct _ _) as [p|e]; simpl; [|congruence].
  destruct (status_rows fs total names); simpl; congruence.
Qed.

(** The rows of the overview: one per directory that holds a log, in the
    order of the names, each with the size of the completed set and the
    percentage computed from it. *)
Lemma status_rows_spec (fs : disk) (total : nat) (names : list string)
    (scorers : list scorer_status) :
  status_rows fs total names = Return scorers →
  status_id <$> scorers = filter (λ name, is_Some (scores_path fs name)) names
  ∧ Forall (λ e,
      status_total e = total
      ∧ (∃ scored, get_scorer_progress fs (status_id e) = Return scored
                   ∧ status_scored e = size scored)
      ∧ pct (status_scored e) total = Return (status_pct e)) scorers.
Proof.
  revert scorers. induction names as [|name names IH]; intros scorers; simpl.
  - intros [= <-]. by split.
  - destruct (scores_path fs name) as [f|] eqn:Hf.
    + rewrite filter_cons_True by (by rewrite Hf). intros H.
      apply bind_Return in H as (scored & Hscored & H).
      apply bind_Return in H as (p & Hp & H).
      apply bind_Return in H as (rest & Hrest & [= <-]).
      destruct (IH _ Hrest) as [Hids Hall]. split; [simpl; by f_equal|].
      constructor; [|done]. simpl. eauto.
    + rewrite filter_cons_False by (rewrite Hf; by intros [? ?]). apply IH.
Qed.

(** ** The catalog in order *)

Lemma sorted_Permutation (l : list string) : sorted l ≡ₚ l.
Proof. apply merge_sort_Permutation. Qed.

Lemma get_image_list_NoDup (fs : disk) : NoDup (get_image_list fs).
Proof.
  unfold get_image_list. rewrite sorted_Permutation. apply NoDup_elements.
Qed.

Lemma get_image_list_length (fs : disk) :
  length (get_image_list fs) = size (load_manifest fs).
Proof.
  unfold get_image_list. rewrite sorted_Permutation.
  rewrite <- size_dom. reflexivity.
Qed.

(** ** Rows as dicts *)


Lemma snd_zip_subseteq {A B} (l : list A) (k : list B) : (zip l k).*2 ⊆ k.
Proof.
  revert k. induction l as [|x l IH]; intros [|y k]; simpl; [set_solver..|].
  specialize (IH k). set_solver.
Qed.




Lemma foldl_insert_Some_value (k v : string) (l : list (string * string))
    (d : gmap string (option string)) :
  foldl (λ d kv, <[kv.1 := Some kv.2]> d) d l !! k = Some (Some v) →
  d !! k = Some (Some v) ∨ v ∈ l.*2.
Proof.
  revert d. induction l as [|[k' v'] l IH]; intros d; simpl; [tauto|].
  intros [H|H]%IH; [|set_solver].
  apply lookup_insert_Some in H as [[_ [= ->]]|[_ H]]; set_solver.
Qed.

Lemma foldl_insert_None_value (k v : string) (l : list string)
    (d : gmap string (option string)) :
  foldl (λ d k', <[k' := None]> d) d l !! k = Some (Some v) →
  d !! k = Some (Some v).
Proof.
  revert d. induction l as [|k' l IH]; intros d; simpl; [done|].
  intros H%IH. by apply lookup_insert_Some in H as [[_ [=]]|[_ H]].
Qed.

(** A value of a row read as a dict is a cell of the row. *)
Lemma dict_row_value (fieldnames row : list string) (k v : string) :
  dict_row fieldnames row !! k = Some (Some v) → v ∈ row.
Proof.
  unfold dict_row. intros H%foldl_insert_None_value.
  apply foldl_insert_Some_value in H as [H|H].
  - by rewrite lookup_empty in H.
  - by apply snd_zip_subseteq in H.
Qed.

(** ** Carriage returns *)

Lemma universal_newlines_no_carriage_return (s : string) :
  ¬ has_carriage_return (universal_newlines s).
Proof.
  unfold has_carriage_return.
  cut (("013"%char ∉ list_ascii_of_string (universal_newlines s))
       ∧ ∀ c, "013"%char ∉ list_ascii_of_string (universal_newlines (String c s))).
  { tauto. }
  induction s as [|c' s [IH1 IH2]].
  - split; [simpl; set_solver|]. intros c. simpl.
    destruct (Ascii.eqb_spec c "013"); simpl; [|set_solver].
    apply not_elem_of_cons. split; [done|set_solver].
  - split; [apply IH2|]. intros c.
    change (universal_newlines (String c (String c' s)))
      with (if Ascii.eqb c "013"
            then if Ascii.eqb c' "010" then String "010" (universal_newlines s)
                 else String "010" (universal_newlines (String c' s))
            else String c (universal_newlines (String c' s))).
    destruct (Ascii.eqb_spec c "013") as [->|Hc].
    + destruct (Ascii.eqb c' "010"); simpl; apply not_elem_of_cons;
        (split; [done|]); [exact IH1|exact (IH2 c')].
    + change (list_ascii_of_string (String c ?t)) with (c :: list_ascii_of_string t).
      apply not_elem_of_cons. split; [congruence|exact (IH2 c')].
Qed.

Lemma universal_newlines_id (s : string) :
  ¬ has_carriage_return s → universal_newlines s = s.
Proof.
  unfold has_carriage_return. induction s as [|c s IH]; [done|].
  simpl. rewrite not_elem_of_cons. intros [Hc Hs].
  destruct (Ascii.eqb_spec c "013") as [->|_]; [done|]. by rewrite IH.
Qed.

Lemma universal_newlines_fixed (s : string) :
  universal_newlines s = s ↔ ¬ has_carriage_return s.
Proof.
  split; [|apply universal_newlines_id].
  intros <-. apply universal_newlines_no_carriage_return.
Qed.

(** ** The completed set of any log *)

Lemma add_image_codes_Return (rows : list (gmap string (option string)))
    (scored scored' : gset (option string)) :
  add_image_codes rows scored = Return scored' →
  scored ⊆ scored'
  ∧ ∀ c, c ∈ scored' →
      c ∈ scored ∨ ∃ row, row ∈ rows ∧ row !! "image_code" = Some c.
Proof.
  revert scored. induction rows as [|row rows IH]; intros scored; simpl.
  - intros [= <-]. split; [done|tauto].
  - unfold getitem. destruct (row !! "image_code") as [code|] eqn:Hcode; [|done].
    simpl. intros [Hsub Hin]%IH. split; [set_solver|].
    intros c [[Hc| ->%elem_of_singleton]%elem_of_union|(r & ? & ?)]%Hin.
    + by left.
    + right. exists row. split; [left|done].
    + right. exists r. split; [by right|done].
Qed.


(** The dicts [csv.DictReader] yields for a log read through [open]. *)
Lemma elem_of_DictReader (fieldnames : list string) (rows : csv_file)
    (d : gmap string (option string)) :
  d ∈ DictReader (read_text (fieldnames :: rows))
  ↔ ∃ row, row ∈ rows ∧ row ≠ []
           ∧ d = dict_row (universal_newlines <$> fieldnames)
                   (universal_newlines <$> row).
Proof.
  change (read_text (fieldnames :: rows))
    with ((universal_newlines <$> fieldnames) :: read_text rows).
  unfold DictReader, read_text.
  rewrite list_elem_of_fmap. split.
  - intros (row' & -> & [Hne (row & -> & Hin)%list_elem_of_fmap]%list_elem_of_filter).
    exists row. split_and!; [done| |done]. intros ->. by apply Hne.
  - intros (row & Hin & Hne & ->). eexists. split; [done|].
    apply list_elem_of_filter. split; [by destruct row|].
    apply list_elem_of_fmap. by exists row.
Qed.

(** Every code of a completed set went through the translation of line
    ends. *)
Lemma get_scorer_progress_translated (fs : disk) (scorer_id : string)
    (scored : gset (option string)) (c : string) :
  get_scorer_progress fs scorer_id = Return scored →
  Some c ∈ scored → ∃ cell, c = universal_newlines cell.
Proof.
  unfold get_scorer_progress.
  destruct (scores_path fs scorer_id) as [[|fieldnames rows]|]; simpl;
    [intros [= <-]; set_solver| |intros [= <-]; set_solver].
  intros [_ Hin]%add_image_codes_Return Hc.
  destruct (Hin _ Hc) as [?|(d & Hd & Hlookup)]; [set_solver|].
  apply elem_of_DictReader in Hd as (row & _ & _ & ->).
  apply dict_row_value, list_elem_of_fmap in Hlookup as (cell & -> & _). eauto.
Qed.




(** ** The rows one call writes *)




(** The measurements before index [n] all convert when the rows say so. *)
Lemma rows_determined (now : nat → string) (image_code : pyval)
    (ms : list item) (rows rows' : csv_file) :
  (∀ j row, rows !! j = Some row →
     ∃ m, ms !! j = Some m ∧ measurement_row image_code m (now j) = Return row) →
  (∀ j row, rows' !! j = Some row →
     ∃ m, ms !! j = Some m ∧ measurement_row image_code m (now j) = Return row) →
  length rows = length rows' → rows = rows'.
Proof.
  intros H H' Hlen. apply list_eq_same_length with (length rows); [done..|].
  intros j row row' _ Hj Hj'.
  destruct (H _ _ Hj) as (m & Hm & Hrow), (H' _ _ Hj') as (m' & Hm' & Hrow').
  congruence.
Qed.

(** ** The completed set after a call *)


Lemma codes_of_nil : codes_of [] = ∅.
Proof. reflexivity. Qed.



(** ** What a measurement must hold *)

Lemma difference_Return (m : item) (k1 k2 : string) (d : num) :
  difference m k1 k2 = Return d →
  ∃ a b x y, subscript m k1 = Return a ∧ subscript m k2 = Return b
             ∧ as_num a = Return x ∧ as_num b = Return y.
Proof.
  unfold difference. intros H.
  apply bind_Return in H as (a & Ha & H). apply bind_Return in H as (b & Hb & H).
  apply bind_Return in H as (x & Hx & H). apply bind_Return in H as (y & Hy & H).
  by exists a, b, x, y.
Qed.

Lemma subscript_Return (m : item) (key : string) (v : pyval) :
  subscript m key = Return v ↔ ∃ fields, m = JObject fields ∧ fields !! key = Some v.
Proof.
  destruct m as [fields|w]; simpl.
  - unfold getitem. destruct (fields !! key) as [v'|] eqn:Hv; split.
    + intros [= ->]. eauto.
    + intros (? & [= <-] & ?). congruence.
    + done.
    + intros (? & [= <-] & ?). congruence.
  - split; [done|]. by intros (? & [=] & _).
Qed.

(** ** Assignment and progress through the completed set *)





Lemma filter_length_complement {A} (P : A → Prop) `{!∀ x, Decision (P x)}
    (l : list A) :
  (length (filter P l) + length (filter (λ x, ¬ P x) l) = length l)%nat.
Proof.
  induction l as [|x l IH]; [done|].
  destruct (decide (P x)).
  - rewrite filter_cons_True, (filter_cons_False (λ x, ¬ P x)) by tauto.
    simpl. lia.
  - rewrite filter_cons_False, (filter_cons_True (λ x, ¬ P x)) by tauto.
    simpl. lia.
Qed.

(** When every completed code is a code of the catalog, the codes that
    remain and the completed ones add up to the catalog. *)
Lemma remaining_codes_length (fs : disk) (scored : gset (option string)) :
  (∀ c, c ∈ scored → ∃ code, c = Some code ∧ code ∈ dom (load_manifest fs)) →
  (length (remaining_codes fs scored) + size scored = length (get_image_list fs))%nat.
Proof.
  intros Hsub. unfold remaining_codes.
  rewrite <- (filter_length_complement (λ c, Some c ∈ scored) (get_image_list fs)).
  rewrite Nat.add_comm. f_equal.
  assert (Heq : scored
    = list_to_set (Some <$> filter (λ c, Some c ∈ scored) (get_image_list fs))).
  { apply set_eq. intros c. rewrite elem_of_list_to_set, list_elem_of_fmap. split.
    - intros Hc. destruct (Hsub _ Hc) as (code & -> & Hcode). exists code.
      split; [done|]. apply list_elem_of_filter.
      split; [done|by apply elem_of_get_image_list].
    - by intros (code & -> & [? _]%list_elem_of_filter). }
  rewrite Heq at 1. rewrite size_list_to_set, length_fmap; [done|].
  apply NoDup_fmap; [apply _|]. apply NoDup_filter, get_image_list_NoDup.
Qed.

(** ** Stores the program builds *)


Lemma scores_path_Some (fs : disk) (scorer_id : string) (f : csv_file) :
  scores_path fs scorer_id = Some f
  ↔ ∃ d, scorer_data fs !! scorer_id = Some d ∧ scores_csv d = Some f.
Proof.
  unfold scores_path. destruct (scorer_data fs !! scorer_id) as [d|]; simpl;
    naive_solver.
Qed.







(** ** Strings as lists of bytes *)

Lemma list_ascii_of_string_app (a b : string) :
  list_ascii_of_string (a +:+ b)
  = (list_ascii_of_string a ++ list_ascii_of_string b)%list.
Proof. induction a as [|c a IH]; [done|]. simpl. by rewrite <- IH. Qed.


Lemma string_app_inj_suffix (a b suffix : string) :
  a +:+ suffix = b +:+ suffix → a = b.
Proof.
  intros H. apply (f_equal list_ascii_of_string) in H.
  rewrite !list_ascii_of_string_app in H. apply app_inv_tail in H.
  apply (f_equal string_of_list_ascii) in H.
  by rewrite !string_of_list_ascii_of_string in H.
Qed.

(** ** [str.strip] *)














(** ** The archive *)

Lemma zip_logs_names (fs : disk) (names : list string) :
  (zip_logs fs names).*1
  = (λ name, name +:+ "/scores.csv")
      <$> filter (λ name, is_Some (scores_path fs name)) names.
Proof.
  induction names as [|name names IH]; [done|]. simpl.
  destruct (scores_path fs name) as [f|] eqn:Hf.
  - rewrite filter_cons_True by (by rewrite Hf). rewrite !fmap_cons.
    f_equal. exact IH.
  - rewrite filter_cons_False by (rewrite Hf; by intros [? ?]). exact IH.
Qed.

Lemma elem_of_zip_logs (fs : disk) (names : list string) (entry : string * member) :
  entry ∈ zip_logs fs names
  ↔ ∃ name f, name ∈ names ∧ scores_path fs name = Some f
              ∧ entry = (name +:+ "/scores.csv", LogMember f).
Proof.
  induction names as [|name names IH]; simpl.
  - split; [by intros ?%elem_of_nil|]. by intros (? & ? & ?%elem_of_nil & _).
  - destruct (scores_path fs name) as [f|] eqn:Hf.
    + rewrite elem_of_cons, IH. split.
      * intros [->|(n & f' & ? & ? & ?)]; [exists name, f; by split_and!; [left|..]|].
        exists n, f'. split_and!; [by right|done..].
      * intros (n & f' & [->|?]%elem_of_cons & Hn & ->).
        -- left. congruence.
        -- right. by exists n, f'.
    + rewrite IH. split.
      * intros (n & f' & ? & ? & ?). exists n, f'. split_and!; [by right|done..].
      * intros (n & f' & [->|?]%elem_of_cons & Hn & ->); [congruence|].
        by exists n, f'.
Qed.

Lemma sorted_NoDup (l : list string) : NoDup l → NoDup (sorted l).
Proof. by rewrite sorted_Permutation. Qed.

Lemma manifest_is_no_log (name : string) : name +:+ "/scores.csv" ≠ "manifest.json".
Proof.
  intros H. apply (f_equal list_ascii_of_string) in H.
  rewrite list_ascii_of_string_app in H.
  apply (f_equal reverse) in H. rewrite reverse_app in H.
  vm_compute in H. discriminate H.
Qed.

(** ** The overview on a log that cannot be read *)



(** ** The percentage at its ends *)

(** An integer divided by itself is exactly [1.0]. *)
Lemma fdiv_self (p : positive) :
  fdiv (S754_finite false p 0) (S754_finite false p 0) = one.
Proof.
  unfold fdiv, SFdiv, SFdiv_core_binary.
  replace (Zdigits2 (Z.pos p) + 0 - (Zdigits2 (Z.pos p) + 0)) with 0 by lia.
  change (Z.min (fexp prec emax 0) (0 - 0)) with (-53).
  change (0 - 0 - -53) with 53.
  cbv beta iota zeta.
  destruct (Z.div_eucl (Z.shiftl (Z.pos p) 53) (Z.pos p)) as [q r] eqn:Hdiv.
  assert (Hq : q = 2 ^ 53).
  { change q with (fst (q, r)). rewrite <- Hdiv.
    change (fst (Z.div_eucl ?a ?b)) with (a / b).
    rewrite Z.shiftl_mul_pow2, Z.mul_comm by lia. apply Z.div_mul. lia. }
  assert (Hr : r = 0).
  { change r with (snd (q, r)). rewrite <- Hdiv.
    change (snd (Z.div_eucl ?a ?b)) with (a mod b).
    rewrite Z.shiftl_mul_pow2, Z.mul_comm by lia. apply Z.mod_mul. lia. }
  subst q r. unfold new_location. destruct (Z.even (Z.pos p)); reflexivity.
Qed.

Lemma int_true_divide_self (n : Z) : 0 < n → int_true_divide n n = Return one.
Proof.
  intros Hn. unfold int_true_divide.
  destruct (Z.eqb_spec n 0) as [?|_]; [lia|].
  destruct n as [|p|p]; [lia| |lia]. simpl Z2SF. by rewrite fdiv_self.
Qed.

Lemma int_true_divide_zero (n : Z) : 0 < n → int_true_divide 0 n = Return pos_zero.
Proof.
  intros Hn. unfold int_true_divide.
  destruct (Z.eqb_spec n 0) as [?|_]; [lia|].
  destruct n as [|p|p]; [lia| |lia]. reflexivity.
Qed.

(** * Properties of the workflow *)

(** C1 (as amended).  A submission whose image code is missing or empty is
    rejected with an explicit error reply and writes nothing: the store after
    the request is the store before it.  (An empty list of measurements is
    not among the rejected submissions: [submit_scores] guards the image code
    only.) *)
Theorem submission_without_image_code_rejected (fs : disk) (now : nat → string)
    (session : option string) (data : body) :
  truthy (body_image_code data) = false →
  ∃ error, submit_scores fs now session data = (fs, Return (ErrorReply error)).
Proof.
  intros Hcode.
  destruct (submit_scores_cases fs now session data)
    as [[_ ->]|[(_ & _ & ->)|(s & fs' & r & _ & Ht & _)]]; [eauto..|congruence].
Qed.





(** C6.  [admin_status] never fails on a division by zero, and whenever it
    answers: the total is the size of the catalog; the scorers listed are the
    directories that hold a log, by name; each entry carries the size of
    that scorer's completed set and the percentage
    [round(scored / total * 100)], computed in binary64 as Python does, and
    the percentage is 0, with no division made, when the catalog is empty. *)
Theorem admin_status_percent (fs : disk) :
  admin_status fs ≠ Raise ZeroDivisionError
  ∧ ∀ total scorers, admin_status fs = Return (total, scorers) →
      total = length (get_image_list fs)
      ∧ status_id <$> scorers
        = filter (λ name, is_Some (scores_path fs name))
            (sorted (elements (dom (scorer_data fs))))
      ∧ Forall (λ e,
          status_total e = total
          ∧ (∃ scored, get_scorer_progress fs (status_id e) = Return scored
                       ∧ status_scored e = size scored)
          ∧ pct (status_scored e) total = Return (status_pct e)
          ∧ (total = 0%nat → status_pct e = 0)
          ∧ (total ≠ 0%nat →
             ∃ q, int_true_divide (Z.of_nat (status_scored e)) (Z.of_nat total) = Return q
                  ∧ round (fmul q hundred) = Return (status_pct e))) scorers.
Proof.
  unfold admin_status. split.
  - pose proof (status_rows_no_zero_division fs (length (get_image_list fs))
                  (sorted (elements (dom (scorer_data fs))))).
    destruct (status_rows _ _ _); simpl; congruence.
  - intros total scorers H. apply bind_Return in H as (rows & Hrows & [= <- <-]).
    apply status_rows_spec in Hrows as [Hids Hall]. split_and!; [done..|].
    eapply Forall_impl; [exact Hall|]. intros e (Ht & Hs & Hp). split_and!; [done..| |].
    + intros H0. rewrite H0 in Hp. by injection Hp.
    + intros Hne. rewrite pct_formula in Hp by done.
      apply bind_Return in Hp as (q & Hq & Hp). eauto.
Qed.

(** C7.  The distances of a pair of points, in pixels and in millimetres,
    as computed and as written to the row, are the same whichever of the two
    points comes first; and for a point with finite coordinates the two
    distances from the point to itself are zero, written [0.00]. *)
Theorem distance_symmetric_and_zero (id id' : pyval) (p1 p2 : pyval * pyval) :
  distances (measurement id p1 p2) = distances (measurement id' p2 p1)
  ∧ distance_cells (measurement id p1 p2) = distance_cells (measurement id' p2 p1)
  ∧ (finite_point p1 →
     distances (measurement id p1 p1) = Return (NFloat pos_zero, NFloat pos_zero)
     ∧ distance_cells (measurement id p1 p1) = Return ("0.00", "0.00")).
Proof.
  split_and!.
  - apply distances_sym.
  - unfold distance_cells. by rewrite (distances_sym id id').
  - intros Hp. unfold distance_cells. by rewrite distances_diag.
Qed.




(** * Further properties of the program *)

(** X1.  The list of images is the catalog in order: it is sorted by code
    and holds no code twice, its members are the keys of the manifest, there
    are as many of them as the manifest has entries, and it is empty when
    there is no manifest. *)
Theorem image_list_is_the_sorted_catalog (fs : disk) :
  StronglySorted String.le (get_image_list fs)
  ∧ NoDup (get_image_list fs)
  ∧ (∀ code, code ∈ get_image_list fs ↔ is_Some (load_manifest fs !! code))
  ∧ length (get_image_list fs) = size (load_manifest fs)
  ∧ (manifest_json fs = None → get_image_list fs = []).
Proof.
  split_and!.
  - apply sorted_StronglySorted.
  - apply get_image_list_NoDup.
  - intros code. by rewrite elem_of_get_image_list, elem_of_dom.
  - apply get_image_list_length.
  - intros H. unfold get_image_list, load_manifest. by rewrite H.
Qed.


(** X3.  No completed set holds a code with a carriage return: the log is
    read through [open] without [newline=""], which turns every carriage
    return into a line feed.  So a catalog code that holds one is never
    completed, whatever is submitted, and a scorer of such a catalog never
    gets the done page. *)
Theorem carriage_return_code_is_never_completed (fs : disk) (scorer_id : string) :
  (∀ scored c, get_scorer_progress fs scorer_id = Return scored →
     Some c ∈ scored → ¬ has_carriage_return c)
  ∧ (∀ session code n s,
       active session = Some scorer_id →
       code ∈ dom (load_manifest fs) → has_carriage_return code →
       score_next fs session ≠ Return (DonePage n s)).
Proof.
  assert (Hcr : ∀ scored c, get_scorer_progress fs scorer_id = Return scored →
     Some c ∈ scored → ¬ has_carriage_return c).
  { intros scored c Hp Hc.
    destruct (get_scorer_progress_translated _ _ _ _ Hp Hc) as [cell ->].
    apply universal_newlines_no_carriage_return. }
  split; [exact Hcr|].
  intros session code n s Ha Hcode Hcode_cr. unfold score_next. rewrite Ha.
  destruct (get_scorer_progress fs scorer_id) as [scored|e] eqn:Hp; [|done]. simpl.
  destruct (filter _ _) as [|c rest] eqn:Hrem; [|done]. exfalso.
  assert (Hin : code ∈ filter (λ c, Some c ∉ scored) (get_image_list fs)).
  { apply list_elem_of_filter. split; [|by apply elem_of_get_image_list].
    intros Hc. by eapply Hcr. }
  rewrite Hrem in Hin. by apply not_elem_of_nil in Hin.
Qed.



(** X6.  What a measurement must hold to be written.  A row is built only
    for a JSON object that has the five keys [id], [p1_x], [p1_y], [p2_x]
    and [p2_y] with a number (an int, a float or a bool) under each of the
    four coordinates.  An element that is not an object raises [TypeError],
    and an object without [p1_x] raises [KeyError] on that key, whatever
    else it holds. *)
Theorem measurement_row_needs_keys_and_numbers (image_code : pyval) (m : item)
    (ts : string) :
  (∀ row, measurement_row image_code m ts = Return row →
     ∃ fields id p1_x p1_y p2_x p2_y,
       m = JObject fields
       ∧ fields !! "id" = Some id
       ∧ fields !! "p1_x" = Some p1_x ∧ fields !! "p1_y" = Some p1_y
       ∧ fields !! "p2_x" = Some p2_x ∧ fields !! "p2_y" = Some p2_y
       ∧ Forall (λ v, ∃ n, as_num v = Return n) [p1_x; p1_y; p2_x; p2_y])
  ∧ (∀ v, m = JScalar v → measurement_row image_code m ts = Raise TypeError)
  ∧ (∀ fields, m = JObject fields → fields !! "p1_x" = None →
       measurement_row image_code m ts = Raise (KeyError "p1_x")).
Proof.
  split_and!.
  - intros row H. apply measurement_row_cells in H
      as (dist_px & dist_mm & d_px & d_mm & id & p1_x & p1_y & p2_x & p2_y
          & Hd & _ & _ & Hid & H1x & H1y & H2x & H2y & _).
    apply bind_Return in Hd as (dx & Hdx & Hd).
    apply bind_Return in Hd as (dy & Hdy & _).
    apply difference_Return in Hdx as (a & b & n1 & n2 & Ha & Hb & Hn1 & Hn2).
    apply difference_Return in Hdy as (a' & b' & n3 & n4 & Ha' & Hb' & Hn3 & Hn4).
    assert (a = p1_x) as -> by congruence. assert (b = p2_x) as -> by congruence.
    assert (a' = p1_y) as -> by congruence. assert (b' = p2_y) as -> by congruence.
    apply subscript_Return in Hid as (fields & -> & Hid).
    apply subscript_Return in H1x as (? & [= <-] & H1x).
    apply subscript_Return in H1y as (? & [= <-] & H1y).
    apply subscript_Return in H2x as (? & [= <-] & H2x).
    apply subscript_Return in H2y as (? & [= <-] & H2y).
    exists fields, id, p1_x, p1_y, p2_x, p2_y. split_and!; [done..|].
    repeat constructor; eauto.
  - by intros v ->.
  - intros fields -> Hnone. unfold measurement_row, distances, difference.
    simpl. unfold getitem. by rewrite Hnone.
Qed.




(** X10.  What [/progress] counts.  For a scorer whose log can be read the
    reply carries the size of the catalog, the size of the completed set and
    their difference, and the page of [/score] shows the same two counts
    under the same identity.  When every completed code is a code of the
    catalog, the difference is the number of images that remain to be
    assigned, it is not negative, and it is zero exactly when [/score]
    answers with the done page. *)
Theorem progress_counts_what_remains (fs : disk) (session : option string)
    (scorer_id : string) (scored : gset (option string)) :
  active session = Some scorer_id →
  get_scorer_progress fs scorer_id = Return scored →
  let total := size (load_manifest fs) in
  let remaining := Z.of_nat total - Z.of_nat (size scored) in
  progress fs session = Return (Progress scorer_id total (size scored) remaining)
  ∧ (∀ code image_url reference_url progress_done progress_total sid mm_per_px,
       score_next fs session
       = Return (ScorePage code image_url reference_url progress_done
                   progress_total sid mm_per_px) →
       progress_done = size scored ∧ progress_total = total ∧ sid = scorer_id)
  ∧ ((∀ c, c ∈ scored → ∃ code, c = Some code ∧ code ∈ dom (load_manifest fs)) →
     remaining = Z.of_nat (length (remaining_codes fs scored))
     ∧ 0 ≤ remaining
     ∧ (remaining = 0 ↔ score_next fs session = Return (DonePage total scorer_id))).
Proof.
  intros Ha Hp total remaining. split_and!.
  - unfold progress. rewrite Ha, Hp. simpl.
    unfold remaining, total. by rewrite get_image_list_length.
  - intros code image_url reference_url progress_done progress_total sid mm_per_px.
    unfold score_next. rewrite Ha, Hp. unfold mbind, result_bind.
    remember MM_PER_PX as k eqn:Hk. clear Hk.
    destruct (filter _ _) as [|c rest]; [done|].
    intros [= _ _ _ <- <- <- _]. by rewrite get_image_list_length.
  - intros Hsub. pose proof (remaining_codes_length fs scored Hsub) as Hlen.
    rewrite get_image_list_length in Hlen. fold total in Hlen.
    assert (Hrem : remaining = Z.of_nat (length (remaining_codes fs scored)))
      by (unfold remaining; lia).
    split_and!; [done|lia|].
    destruct (score_next_remaining _ _ _ _ Ha Hp) as [Hhead Hdone].
    rewrite get_image_list_length in Hdone. rewrite Hrem. split.
    + intros H0. apply Hdone. apply length_zero_iff_nil. lia.
    + intros Hpage. rewrite Hpage in Hhead. simpl in Hhead.
      by destruct (remaining_codes fs scored).
Qed.



(** X13.  What the archive of [/admin/download] holds.  Its members are the
    logs of the directories that hold one, each under the name of the
    directory followed by [/scores.csv], in the order of the names, and then
    the manifest when there is one; no name occurs twice; each log member is
    the log on disk, whether or not it can be read as a log; and when
    [/admin/status] answers, the logs of the archive are the logs of the
    scorers it lists, in the same order. *)
Theorem archive_holds_every_log (fs : disk) :
  let logs := filter (λ name, is_Some (scores_path fs name))
                (sorted (elements (dom (scorer_data fs)))) in
  let manifest_name := match manifest_json fs with
                       | Some _ => ["manifest.json"]
                       | None => []
                       end in
  (download_all_scores fs).*1
  = (((λ name, name +:+ "/scores.csv") <$> logs) ++ manifest_name)%list
  ∧ NoDup (download_all_scores fs).*1
  ∧ (∀ scorer_id f,
       (scorer_id +:+ "/scores.csv", LogMember f) ∈ download_all_scores fs
       ↔ scores_path fs scorer_id = Some f)
  ∧ (∀ manifest,
       ("manifest.json", ManifestMember manifest) ∈ download_all_scores fs
       ↔ manifest_json fs = Some manifest)
  ∧ (∀ total scorers, admin_status fs = Return (total, scorers) →
       (download_all_scores fs).*1
       = (((λ e, status_id e +:+ "/scores.csv") <$> scorers) ++ manifest_name)%list).
Proof.
  intros logs manifest_name.
  assert (Hnames : (download_all_scores fs).*1
    = (((λ name, name +:+ "/scores.csv") <$> logs) ++ manifest_name)%list).
  { unfold download_all_scores. rewrite fmap_app, zip_logs_names. f_equal.
    unfold manifest_name. by destruct (manifest_json fs). }
  split_and!.
  - exact Hnames.
  - rewrite Hnames. apply NoDup_app. split_and!.
    + apply NoDup_fmap_2.
      * intros a b H. by apply string_app_inj_suffix in H.
      * apply NoDup_filter, sorted_NoDup, NoDup_elements.
    + intros name (n & -> & _)%list_elem_of_fmap Hm. unfold manifest_name in Hm.
      destruct (manifest_json fs); [|by apply elem_of_nil in Hm].
      apply list_elem_of_singleton in Hm. by apply manifest_is_no_log in Hm.
    + unfold manifest_name. destruct (manifest_json fs); [|constructor].
      apply NoDup_singleton.
  - intros s f. unfold download_all_scores. rewrite elem_of_app, elem_of_zip_logs.
    split.
    + intros [(n & f' & _ & Hn & [= Heq <-])|Hm].
      * apply string_app_inj_suffix in Heq. by subst.
      * destruct (manifest_json fs); [|by apply elem_of_nil in Hm].
        by apply list_elem_of_singleton in Hm.
    + intros Hf. left. exists s, f. split_and!; [|done..].
      apply elem_of_sorted, elem_of_elements, elem_of_dom.
      apply scores_path_Some in Hf as (d & -> & _). eauto.
  - intros manifest. unfold download_all_scores. rewrite elem_of_app, elem_of_zip_logs.
    split.
    + intros [(n & f' & _ & _ & [=])|Hm].
      destruct (manifest_json fs); [|by apply elem_of_nil in Hm].
      apply list_elem_of_singleton in Hm. by injection Hm as ->.
    + intros ->. right. left.
  - intros total scorers H. rewrite Hnames. f_equal.
    unfold admin_status in H. apply bind_Return in H as (rows & Hrows & [= _ <-]).
    apply status_rows_spec in Hrows as [Hids _]. fold logs in Hids.
    rewrite <- Hids, <- list_fmap_compose. done.
Qed.

(** X14.  The page of [/score] and the images it points to.  The page names
    the image under [/image/] followed by its code, for which [serve_image]
    looks up the file of that code in [aligned_output/].  The reference is
    chosen by the system the manifest records for the image: [ar] for 2D/AR
    and AR-VIU, for which [serve_reference] sends [reference_png.png] or
    nothing; [screen] for every other system and for an image with no
    system recorded, for which it sends [reference_screen.png] or nothing.
    Any other reference type is not found. *)
Theorem score_page_points_to_the_reference_of_the_system (fs : disk) (a : assets)
    (session : option string) (code image_url reference_url : string)
    (progress_done progress_total : nat) (scorer_id : string) (mm_per_px : float) :
  score_next fs session
  = Return (ScorePage code image_url reference_url progress_done progress_total
              scorer_id mm_per_px) →
  let recorded := default "" (load_manifest fs !! code ≫= system) in
  image_url = "/image/" +:+ code
  ∧ (serve_image a code ≠ NotFound ↔ code +:+ ".png" ∈ aligned_output a)
  ∧ (∃ ref_type, reference_url = "/reference/" +:+ ref_type
       ∧ (recorded ∈ AR_SYSTEMS →
          ref_type = "ar"
          ∧ serve_reference a ref_type
            = if reference_ar_exists a then SendFile REFERENCE_AR else NotFound)
       ∧ (recorded ∉ AR_SYSTEMS →
          ref_type = "screen"
          ∧ serve_reference a ref_type
            = if reference_screen_exists a then SendFile REFERENCE_SCREEN else NotFound))
  ∧ (∀ ref_type, ref_type ≠ "ar" → ref_type ≠ "screen" →
       serve_reference a ref_type = NotFound)
  ∧ mm_per_px = MM_PER_PX.
Proof.
  intros Hpage recorded. unfold score_next in Hpage.
  remember MM_PER_PX as k eqn:Hk.
  destruct (active session) as [s|]; [|done].
  destruct (get_scorer_progress fs s) as [scored|e]; [|done].
  unfold mbind, result_bind in Hpage.
  destruct (filter _ _) as [|c rest]; [done|].
  injection Hpage as -> <- <- _ _ _ <-. fold recorded. clear Hk.
  split_and!; [done| | |intros ref_type Har Hscreen|done].
  - unfold serve_image. by case_decide.
  - exists (if decide (recorded ∈ AR_SYSTEMS) then "ar" else "screen").
    split; [done|]. unfold serve_reference.
    destruct (decide (recorded ∈ AR_SYSTEMS)) as [Hin|Hnot].
    + split; [|done]. intros _. split; [done|].
      by destruct (reference_ar_exists a).
    + split; [done|]. intros _. split; [done|].
      by destruct (reference_screen_exists a).
  - unfold serve_reference.
    destruct (String.eqb_spec ref_type "ar"); [done|].
    by destruct (String.eqb_spec ref_type "screen").
Qed.



(** X17.  The percentage at its two ends, whatever the size of the catalog:
    a scorer who has completed nothing is at 0 percent, and a scorer who has
    completed as many codes as the catalog has images is at exactly 100
    percent: the quotient of an integer by itself is exactly [1.0] in
    binary64, and so is the product with 100. *)
Theorem pct_at_the_ends (total : nat) :
  pct 0 total = Return 0
  ∧ (total ≠ 0%nat → pct total total = Return 100).
Proof.
  split.
  - destruct total as [|n]; [done|]. rewrite pct_formula by done.
    rewrite int_true_divide_zero by lia. reflexivity.
  - intros Hne. rewrite pct_formula by done.
    rewrite int_true_divide_self by lia. reflexivity.
Qed.

(** X18.  For integer coordinates the two distances depend on the pair of
    points through the squared length of the offset between them only: two
    pairs with the same squared length get the same distances and the same
    two cells.  So the distances do not change when both points are moved by
    the same integer amounts. *)
Theorem integer_distances_depend_on_the_offset (id id' : pyval)
    (a b c d a' b' c' d' : Z) :
  (a - c) ^ 2 + (b - d) ^ 2 = (a' - c') ^ 2 + (b' - d') ^ 2 →
  distances (measurement id (VInt a, VInt b) (VInt c, VInt d))
  = distances (measurement id' (VInt a', VInt b') (VInt c', VInt d'))
  ∧ distance_cells (measurement id (VInt a, VInt b) (VInt c, VInt d))
    = distance_cells (measurement id' (VInt a', VInt b') (VInt c', VInt d'))
  ∧ ∀ t u,
      distances (measurement id (VInt (a + t), VInt (b + u)) (VInt (c + t), VInt (d + u)))
      = distances (measurement id (VInt a, VInt b) (VInt c, VInt d)).
Proof.
  intros Hsq.
  assert (Hd : distances (measurement id (VInt a, VInt b) (VInt c, VInt d))
    = distances (measurement id' (VInt a', VInt b') (VInt c', VInt d'))).
  { rewrite !distances_int_points. by rewrite Hsq. }
  split_and!; [done| |].
  - unfold distance_cells. by rewrite Hd.
  - intros t u. rewrite !distances_int_points.
    by replace (a + t - (c + t)) with (a - c) by lia;
       replace (b + u - (d + u)) with (b - d) by lia.
Qed.



End Runtime.

(** * The properties at sample inputs *)

(** C1 as the specification words it does not hold: on a fresh store, a
    submission for image A001 whose list of measurements is empty gets the
    ok reply, not an error, and the store has changed: the scorer has a
    directory and a log, the header. *)
Lemma empty_submission_is_accepted :
  let data := sample_body "A001" [] in
  let after := submit_scores sample_pow sample_repr sample_store sample_clock
                 (Some "s1") data in
  default [] (body_measurements data) = []
  ∧ after.2 = Return (OkReply "/score")
  ∧ scores_path sample_store "s1" = None
  ∧ scores_path after.1 "s1" = Some [CSV_HEADER]
  ∧ after.1 ≠ sample_store.
Proof.
  split_and!; [reflexivity..|].
  intros H. apply (f_equal (λ fs, scores_path fs "s1")) in H. discriminate H.
Defined.

(** C1 (as amended) on a body with no image code and one measurement. *)
Lemma submission_without_image_code_rejected_witness :
  let data := {| body_image_code := Py.VNone;
                 body_measurements := Some [sample_pair] |} in
  truthy (body_image_code data) = false
  ∧ ∃ error,
      submit_scores sample_pow sample_repr sample_store sample_clock (Some "s1") data
      = (sample_store, Return (ErrorReply error)).
Proof.
  split; [reflexivity|].
  apply (submission_without_image_code_rejected sample_pow sample_repr).
  reflexivity.
Defined.





(** C6 with two images and two scorers, one done with both. *)
Lemma admin_status_percent_witness :
  let fs := run sample_pow sample_repr sample_store
              [sample_request "s1" "A001"; sample_request "s2" "A001";
               sample_request "s2" "A002"] in
  admin_status fs
  = Return (2%nat,
            [ {| status_id := "s1"; status_scored := 1; status_total := 2;
                 status_pct := 50 |};
              {| status_id := "s2"; status_scored := 2; status_total := 2;
                 status_pct := 100 |} ])
  ∧ Forall (λ e, pct (status_scored e) 2 = Return (status_pct e))
      [ {| status_id := "s1"; status_scored := 1; status_total := 2;
           status_pct := 50 |};
        {| status_id := "s2"; status_scored := 2; status_total := 2;
           status_pct := 100 |} ].
Proof.
  intros fs.
  assert (H : admin_status fs
    = Return (2%nat,
              [ {| status_id := "s1"; status_scored := 1; status_total := 2;
                   status_pct := 50 |};
                {| status_id := "s2"; status_scored := 2; status_total := 2;
                   status_pct := 100 |} ])) by (vm_compute; reflexivity).
  split; [exact H|].
  destruct (proj2 (admin_status_percent fs) _ _ H) as (_ & _ & Hall).
  eapply Forall_impl; [exact Hall|]. intros e (_ & _ & Hp & _). exact Hp.
Defined.

(** C7 at the point (7, 2.5). *)
Lemma distance_symmetric_and_zero_witness :
  let p := (Py.VInt 7, Py.VFloat (Py.literal 25 1)) in
  finite_point p
  ∧ distances sample_pow (measurement (Py.VInt 1) p p)
    = Return (Py.NFloat Py.pos_zero, Py.NFloat Py.pos_zero)
  ∧ distance_cells sample_pow (measurement (Py.VInt 1) p p) = Return ("0.00", "0.00").
Proof.
  intros p. assert (H : finite_point p) by (split; reflexivity).
  split; [exact H|].
  exact (proj2 (proj2 (distance_symmetric_and_zero sample_pow (Py.VInt 1)
                         (Py.VInt 1) p p)) H).
Defined.




(** * The further properties at sample inputs *)

(** X1 on the catalog of the example scenario. *)
Lemma image_list_is_the_sorted_catalog_witness :
  get_image_list sample_store = ["A001"; "A002"]
  ∧ NoDup (get_image_list sample_store)
  ∧ length (get_image_list sample_store) = size (load_manifest sample_store).
Proof.
  split; [vm_compute; reflexivity|].
  destruct (image_list_is_the_sorted_catalog sample_store) as (_ & Hnodup & _ & Hlen & _).
  split; [exact Hnodup|exact Hlen].
Defined.


(** X3 on a catalog whose one code ends in a carriage return: the scorer
    has submitted the image and is not done. *)
Lemma carriage_return_code_is_never_completed_witness :
  let fs := run sample_pow sample_repr cr_store [sample_request "s1" cr_code] in
  active (Some "s1") = Some "s1"
  ∧ cr_code ∈ dom (load_manifest fs)
  ∧ has_carriage_return cr_code
  ∧ scores_path fs "s1"
    = Some [CSV_HEADER;
            [cr_code; "1"; "100"; "100"; "103"; "104"; "5.00"; "0.66";
             "2026-11-04T12:00:00"]]
  ∧ score_next fs (Some "s1") ≠ Return (DonePage 1 "s1").
Proof.
  intros fs.
  assert (H1 : active (Some "s1") = Some "s1") by reflexivity.
  assert (H2 : cr_code ∈ dom (load_manifest fs)).
  { apply elem_of_dom. eexists. vm_compute. reflexivity. }
  assert (H3 : has_carriage_return cr_code) by (right; left).
  split_and!; [exact H1|exact H2|exact H3|vm_compute; reflexivity|].
  exact (proj2 (carriage_return_code_is_never_completed fs "s1")
           (Some "s1") cr_code 1%nat "s1" H1 H2 H3).
Defined.



(** X6 on the pair of the example scenario, and on an element that is not
    an object. *)
Lemma measurement_row_needs_keys_and_numbers_witness :
  (∃ fields p1_x, sample_pair = JObject fields
                  ∧ fields !! "p1_x" = Some p1_x
                  ∧ ∃ n, Py.as_num p1_x = Return n)
  ∧ measurement_row sample_pow sample_repr (Py.VStr "A001") (JScalar Py.VNone)
      "2026-11-04T12:00:00" = Raise TypeError.
Proof.
  split.
  - assert (H : measurement_row sample_pow sample_repr (Py.VStr "A002") sample_pair
                  "2026-11-04T12:00:00"
                = Return ["A002"; "1"; "100"; "100"; "103"; "104"; "5.00"; "0.66";
                          "2026-11-04T12:00:00"]) by (vm_compute; reflexivity).
    destruct (proj1 (measurement_row_needs_keys_and_numbers sample_pow sample_repr
                       _ _ _) _ H)
      as (fields & id & p1_x & p1_y & p2_x & p2_y & Hm & _ & H1 & _ & _ & _ & Hall).
    exists fields, p1_x. split; [exact Hm|]. split; [exact H1|].
    by apply Forall_cons in Hall as [? _].
  - exact (proj1 (proj2 (measurement_row_needs_keys_and_numbers sample_pow sample_repr
                           (Py.VStr "A001") (JScalar Py.VNone) "2026-11-04T12:00:00"))
             Py.VNone eq_refl).
Defined.




(** X10 in the example scenario, after s1 has scored A001: 2 images, 1
    scored, 1 remaining. *)
Lemma progress_counts_what_remains_witness :
  let fs := run sample_pow sample_repr sample_store [sample_request "s1" "A001"] in
  progress fs (Some "s1") = Return (Progress "s1" 2 1 1)
  ∧ length (remaining_codes fs (codes_of [["A001"]])) = 1%nat.
Proof.
  intros fs.
  assert (Hp : get_scorer_progress fs "s1" = Return (codes_of [["A001"]])).
  { vm_compute. reflexivity. }
  destruct (progress_counts_what_remains fs (Some "s1") "s1" _ eq_refl Hp)
    as (_ & _ & Hrem).
  split; [vm_compute; reflexivity|].
  destruct Hrem as (Hrem & _).
  - intros c (row & code & Hrow & Hhead & ->)%elem_of_codes_of.
    apply list_elem_of_singleton in Hrow. subst row. injection Hhead as <-.
    exists "A001". split; [reflexivity|].
    apply elem_of_dom. eexists. vm_compute. reflexivity.
  - apply Nat2Z.inj. rewrite <- Hrem. vm_compute. reflexivity.
Defined.



(** X13 after submissions of s2 and s1: the two logs by name, then the
    manifest. *)
Lemma archive_holds_every_log_witness :
  let fs := run sample_pow sample_repr sample_store
              [sample_request "s2" "A001"; sample_request "s1" "A001"] in
  (download_all_scores fs).*1 = ["s1/scores.csv"; "s2/scores.csv"; "manifest.json"]
  ∧ NoDup (download_all_scores fs).*1
  ∧ ("manifest.json", ManifestMember sample_catalog) ∈ download_all_scores fs.
Proof.
  intros fs.
  destruct (archive_holds_every_log fs) as (_ & Hnodup & _ & Hmanifest & _).
  split_and!; [vm_compute; reflexivity|exact Hnodup|].
  apply Hmanifest. reflexivity.
Defined.

(** X14 on the first page of the example scenario: A001 was drawn with
    AR-VIU, so the page points to the AR reference. *)
Lemma score_page_points_to_the_reference_of_the_system_witness :
  score_next sample_store (Some "s1")
  = Return (ScorePage "A001" "/image/A001" "/reference/ar" 0 2 "s1" MM_PER_PX)
  ∧ serve_image sample_assets "A001" ≠ NotFound
  ∧ serve_reference sample_assets "ar" = SendFile REFERENCE_AR
  ∧ serve_reference sample_assets "3d" = NotFound.
Proof.
  assert (H : score_next sample_store (Some "s1")
              = Return (ScorePage "A001" "/image/A001" "/reference/ar" 0 2 "s1" MM_PER_PX))
    by (vm_compute; reflexivity).
  destruct (score_page_points_to_the_reference_of_the_system sample_store
              sample_assets _ _ _ _ _ _ _ _ H)
    as (_ & Himage & (ref_type & Hurl & Har & _) & Hother & _).
  split_and!; [exact H| | |].
  - apply Himage. vm_compute. reflexivity.
  - assert (Hrec : default "" (load_manifest sample_store !! "A001" ≫= system)
                   = "AR-VIU") by (vm_compute; reflexivity).
    rewrite Hrec in Har. destruct Har as [-> Hserve].
    + apply elem_of_cons. right. left.
    + exact Hserve.
  - apply Hother; discriminate.
Defined.



(** X17 with a catalog of seven images. *)
Lemma pct_at_the_ends_witness : pct 0 7 = Return 0%Z ∧ pct 7 7 = Return 100%Z.
Proof.
  destruct (pct_at_the_ends 7) as [H0 H100].
  split; [exact H0|]. apply H100. discriminate.
Defined.

(** X18 on two pairs five pixels apart: (0, 0) and (3, 4), (5, 0) and
    (0, 0). *)
Lemma integer_distances_depend_on_the_offset_witness :
  distance_cells sample_pow
    (measurement (Py.VInt 1) (Py.VInt 0, Py.VInt 0) (Py.VInt 3, Py.VInt 4))
  = distance_cells sample_pow
      (measurement (Py.VInt 2) (Py.VInt 5, Py.VInt 0) (Py.VInt 0, Py.VInt 0))
  ∧ distance_cells sample_pow
      (measurement (Py.VInt 1) (Py.VInt 0, Py.VInt 0) (Py.VInt 3, Py.VInt 4))
    = Return ("5.00", "0.66").
Proof.
  split; [|vm_compute; reflexivity].
  apply (integer_distances_depend_on_the_offset sample_pow (Py.VInt 1) (Py.VInt 2)
           0 0 3 4 5 0 0 0)%Z.
  reflexivity.
Defined.


